(** * parallel_inverse_aggregate: the binning and work-distribution pipeline

    A shallow embedding of [parallel_inverse_aggregate.py].  NumPy integer
    arrays are lists of 64-bit integers in [Z], two-column arrays are lists
    of pairs, two-dimensional arrays are lists of rows.  Positions and cell
    sizes are given as the numbers written and stored as doubles; the float
    operations round as binary64 does.  Python exceptions are the left
    summand of [result].
    A lazily evaluated [map] object is a list of per-element outcomes: each
    element is computed, and may raise, when it is reached. *)

From Stdlib Require Import String Bool Arith ZArith QArith Qround Lia List.
From Stdlib Require Import Permutation Sorted.
Import ListNotations.
Local Open Scope Z_scope.

(** ** Exceptions and the error monad *)

Inductive exn : Type :=
| NameError (name : string)
| TypeError (msg : string)
| ValueError (msg : string)
| IndexError (msg : string)
| ZeroDivisionError.

Definition result (A : Type) : Type := (exn + A)%type.

Definition ret {A : Type} (x : A) : result A := inr x.
Definition raise {A : Type} (e : exn) : result A := inl e.

Definition bind {A B : Type} (c : result A) (k : A -> result B) : result B :=
  match c with
  | inl e => inl e
  | inr x => k x
  end.

Notation "x <- c ;; k" := (bind c (fun x => k))
  (at level 61, c at next level, right associativity).

Fixpoint sequence {A : Type} (l : list (result A)) : result (list A) :=
  match l with
  | [] => ret []
  | c :: t => x <- c ;; xs <- sequence t ;; ret (x :: xs)
  end.

Definition mapM {A B : Type} (f : A -> result B) (l : list A) : result (list B) :=
  sequence (map f l).

(** ** Name resolution

    A name that is not a local of the running function is looked up in the
    module namespace.  The module binds the two imports and its seven
    functions, nothing else; none of them is an array. *)

Inductive global : Type := PyModule | PyFunction.

Definition module_globals : list (string * global) :=
  [ ("np", PyModule);
    ("as_completed", PyFunction);
    ("group_by", PyFunction);
    ("compute_linearized_bin_coords", PyFunction);
    ("extract_subproblems", PyFunction);
    ("distribute_subproblems", PyFunction);
    ("build_uniform_grid_bin", PyFunction);
    ("compute_mapped_distance_on_subgroup", PyFunction);
    ("mapped_distance_matrix", PyFunction) ]%string.

(** Loading a global where the body goes on to use it as data: an unbound
    name raises [NameError]; a module or a function is not data. *)
Definition load_global {A : Type} (x : string) : result A :=
  match find (fun kv => String.eqb x (fst kv)) module_globals with
  | Some _ => raise (TypeError x)
  | None => raise (NameError x)
  end.

(** ** The NumPy operations the module uses *)

Section Arrays.
Context {A : Type}.

(** [ary[st:en]] for non-negative bounds. *)
Definition slice (st en : nat) (ary : list A) : list A :=
  skipn st (firstn en ary).

(** The closing loop of [np.array_split]:
    [for i in range(Nsections): sub_arys.append(sary[div_points[i]:div_points[i+1]])]. *)
Definition sub_arrays (div_points : list nat) (Nsections : nat)
           (ary : list A) : list (list A) :=
  map (fun i => slice (nth i div_points 0%nat) (nth (S i) div_points 0%nat) ary)
      (seq 0 Nsections).

(** [np.split(ary, indices)] with a list of indices: no divisibility test,
    [div_points = [0] + list(indices) + [Ntotal]]. *)
Definition np_split (ary : list A) (indices : list nat) : list (list A) :=
  sub_arrays (0%nat :: indices ++ [length ary]) (S (length indices)) ary.
End Arrays.

(** [np.cumsum]. *)
Fixpoint cumsum_from (acc : nat) (l : list nat) : list nat :=
  match l with
  | [] => []
  | x :: t => (acc + x)%nat :: cumsum_from (acc + x) t
  end.

Definition cumsum (l : list nat) : list nat := cumsum_from 0 l.

(** [np.array_split(ary, sections)] with a scalar number of sections. *)
Definition array_split {A : Type} (ary : list A) (sections : Z)
  : result (list (list A)) :=
  let Ntotal := length ary in
  if sections <=? 0 then
    raise (ValueError "number sections must be larger than 0.")
  else
    let Nsections := Z.to_nat sections in
    let Neach_section := (Ntotal / Nsections)%nat in
    let extras := (Ntotal mod Nsections)%nat in
    let section_sizes :=
      0%nat :: repeat (S Neach_section) extras
            ++ repeat Neach_section (Nsections - extras) in
    let div_points := cumsum section_sizes in
    ret (sub_arrays div_points Nsections ary).

(** Sorting by an integer key.  The model is the insertion sort that keeps
    equal keys in their input order.  NumPy's default sort is not stable:
    it sorts short arrays by insertion, as here, but may order equal keys
    differently on long ones.  The keys come out in the same ascending
    order either way; only the order of the values inside one group of
    [group_by] depends on it, and the properties below that speak of a
    group's values do so up to permutation. *)
Section SortByKey.
Context {B : Type}.
Variable key : B -> Z.

Fixpoint insert_by (x : B) (l : list B) : list B :=
  match l with
  | [] => [x]
  | y :: t => if key x <=? key y then x :: y :: t else y :: insert_by x t
  end.

Fixpoint sort_by (l : list B) : list B :=
  match l with
  | [] => []
  | x :: t => insert_by x (sort_by t)
  end.
End SortByKey.

Definition arange (n : nat) : list nat := seq 0 n.

(** [keys.argsort()]: the positions of the keys in ascending key order. *)
Definition argsort (keys : list Z) : list nat :=
  map snd (sort_by fst (combine keys (arange (length keys)))).

(** [a[perm]] for an index array of valid positions. *)
Definition take_rows {A : Type} (d : A) (a : list A) (perm : list nat) : list A :=
  map (fun i => nth i a d) perm.

Fixpoint dedup_adjacent (l : list Z) : list Z :=
  match l with
  | [] => []
  | x :: t =>
      match t with
      | [] => [x]
      | y :: _ => if x =? y then dedup_adjacent t else x :: dedup_adjacent t
      end
  end.

(** [np.unique(ks)]: the distinct values in ascending order. *)
Definition np_unique (ks : list Z) : list Z :=
  dedup_adjacent (sort_by (fun k => k) ks).

Fixpoint first_index (v : Z) (ks : list Z) : nat :=
  match ks with
  | [] => 0%nat
  | x :: t => if x =? v then 0%nat else S (first_index v t)
  end.

(** [np.unique(ks, return_index=True)[1]]: for each distinct value, the
    position of its first occurrence in [ks]. *)
Definition np_unique_index (ks : list Z) : list nat :=
  map (fun v => first_index v ks) (np_unique ks).

(** ** [group_by] *)

Definition group_by (a : list (Z * Z)) : list (list Z) :=
  let a := take_rows (0, 0) a (argsort (map fst a)) in
  np_split (map snd a) (tl (np_unique_index (map fst a))).

(** ** [extract_subproblems] *)

(** Rounding to binary64.  [round_binary64 a b] is the quotient of the
    positive integers [a] and [b] rounded to the nearest double, ties to
    even, as a mantissa and a binary exponent: 53 bits of mantissa in the
    normal range, the fixed exponent -1074 for subnormal results. *)
Definition scale_up (x e : Z) : Z := x * 2 ^ Z.max e 0.

Definition round_half_even (num den : Z) : Z :=
  let q := num / den in
  match (2 * (num mod den) ?= den) with
  | Lt => q
  | Gt => q + 1
  | Eq => if Z.even q then q else q + 1
  end.

(** The integer part of the binary logarithm of [a / b]. *)
Definition binade (a b : Z) : Z :=
  let t := Z.log2 a - Z.log2 b in
  if scale_up a (- t) <? scale_up b t then t - 1 else t.

Definition round_binary64 (a b : Z) : Z * Z :=
  let e := Z.max (binade a b - 52) (-1074) in
  (round_half_even (scale_up a (- e)) (scale_up b e), e).

(** The ceiling of [m * 2^e]. *)
Definition ceil_scaled (m e : Z) : Z :=
  if 0 <=? e then m * 2 ^ e else - ((- m) / 2 ^ (- e)).

(** [np.ceil(a / b)] for a non-zero [b], as the integer [np.array_split]
    makes of it.  [a / b] is Python's division of two integers: the exact
    quotient rounded to the nearest double (a quotient too small for a
    double is 0.0).  The dividend is an array length, far below the
    largest double, so the quotient is finite. *)
Definition ceil_div (a b : Z) : Z :=
  if a =? 0 then 0
  else
    let '(m, e) := round_binary64 (Z.abs a) (Z.abs b) in
    if (0 <? a) && (0 <? b) || (a <? 0) && (b <? 0) then ceil_scaled m e
    else - (if 0 <=? e then m * 2 ^ e else m / 2 ^ (- e)).

Definition extract_subproblems (indexes : list (list Z)) (n_per_subgroup : Z)
  : list (result (list (list Z))) :=
  if negb (n_per_subgroup =? -1) then
    map (fun arr =>
           if n_per_subgroup =? 0 then raise ZeroDivisionError
           else array_split arr (ceil_div (Z.of_nat (length arr)) n_per_subgroup))
        indexes
  else
    map (fun arr => ret [arr]) indexes.

(** ** Broadcasting and indexing *)

Fixpoint zip_with {A B C : Type} (f : A -> B -> C) (xs : list A) (ys : list B)
  : list C :=
  match xs, ys with
  | x :: xs', y :: ys' => f x y :: zip_with f xs' ys'
  | _, _ => []
  end.

(** An elementwise operation on two one-dimensional arrays: equal lengths,
    or one of them of length one. *)
Definition broadcast2 {A B C : Type} (f : A -> B -> C) (xs : list A) (ys : list B)
  : result (list C) :=
  if Nat.eqb (length xs) (length ys) then ret (zip_with f xs ys)
  else
    match xs, ys with
    | [x], _ => ret (map (f x) ys)
    | _, [y] => ret (map (fun x => f x y) xs)
    | _, _ => raise (ValueError "operands could not be broadcast together")
    end.

(** The same between the rows of a two-dimensional array and a vector. *)
Definition broadcast_rows {A B C : Type} (f : A -> B -> C)
           (rows : list (list A)) (v : list B) : result (list (list C)) :=
  mapM (fun row => broadcast2 f row v) rows.

(** With [out=] the broadcast result has to fit the output operand. *)
Definition broadcast_rows_out {A B : Type} (f : A -> B -> A)
           (rows : list (list A)) (v : list B) : result (list (list A)) :=
  mapM (fun row =>
          r <- broadcast2 f row v ;;
          if Nat.eqb (length r) (length row) then ret r
          else raise (ValueError "non-broadcastable output operand"))
       rows.

(** [l[i]] for an integer [i]: negative indices count from the end. *)
Definition getitem {A : Type} (l : list A) (i : Z) : result A :=
  let n := Z.of_nat (length l) in
  let j := if i <? 0 then i + n else i in
  if (j <? 0) || (n <=? j) then raise (IndexError "index out of bounds")
  else
    match nth_error l (Z.to_nat j) with
    | Some x => ret x
    | None => raise (IndexError "index out of bounds")
    end.

(** [l[idx]] for an integer index array. *)
Definition getitems {A : Type} (l : list A) (idx : list Z) : result (list A) :=
  mapM (getitem l) idx.

(** ** Arithmetic of the arrays

    Integer arrays hold 64-bit integers: their arithmetic wraps around. *)
Definition wrap64 (z : Z) : Z := (z + 2 ^ 63) mod 2 ^ 64 - 2 ^ 63.

(** Float arrays hold doubles: a finite double is the rational it equals
    (the sign of a zero plays no part below). *)
Inductive float64 : Type :=
| Finite (q : Q)
| Infinity (negative : bool)
| NaN.

Definition Q_of_scaled (m e : Z) : Q :=
  if 0 <=? e then inject_Z (m * 2 ^ e) else Qmake m (Z.to_pos (2 ^ (- e))).

(** The double nearest to a rational (a number as it is written, or the
    exact result of an operation): ties to even, infinite from 2^1024 on. *)
Definition double_of_Q (q : Q) : float64 :=
  if Qnum q =? 0 then Finite 0
  else
    let '(m, e) := round_binary64 (Z.abs (Qnum q)) (Zpos (Qden q)) in
    if 2 ^ 1024 <=? scale_up m e then Infinity (Qnum q <? 0)
    else Finite (if Qnum q <? 0 then - Q_of_scaled m e else Q_of_scaled m e)%Q.

(** An int64 operand of a float operation is converted to a double. *)
Definition double_of_int (z : Z) : float64 := double_of_Q (inject_Z z).

Definition Qneg (q : Q) : bool := Qnum q <? 0.
Definition Qzero (q : Q) : bool := Qnum q =? 0.

Definition float_mul (x y : float64) : float64 :=
  match x, y with
  | NaN, _ | _, NaN => NaN
  | Finite a, Finite b => double_of_Q (a * b)
  | Infinity s, Finite b | Finite b, Infinity s =>
      if Qzero b then NaN else Infinity (xorb s (Qneg b))
  | Infinity s, Infinity s' => Infinity (xorb s s')
  end.

Definition float_sub (x y : Q) : float64 := double_of_Q (x - y).
Definition float_div (x y : Q) : float64 := double_of_Q (x / y).

Definition Qtrunc (q : Q) : Z := Z.quot (Qnum q) (Zpos (Qden q)).

(** C's [fmod], which is exact. *)
Definition fmod (a b : Q) : Q := (a - b * inject_Z (Qtrunc (a / b)))%Q.

(** The quotient of NumPy's [divmod] on two finite doubles, [b] non-zero:
    [div = (a - fmod(a, b)) / b], one less when the remainder and the
    divisor differ in sign, then snapped to the nearest integral value. *)
Definition npy_divmod_quotient (a b : Q) : float64 :=
  let mod_ := fmod a b in
  match float_sub a mod_ with
  | Finite t =>
      match float_div t b with
      | Finite div =>
          let div :=
            if negb (Qzero mod_) && negb (Bool.eqb (Qneg b) (Qneg mod_))
            then float_sub div 1 else Finite div in
          match div with
          | Finite div =>
              if Qzero div then Finite 0
              else
                let floordiv := inject_Z (Qfloor div) in
                if Qle_bool (div - floordiv) (1 # 2) then Finite floordiv
                else double_of_Q (floordiv + 1)
          | other => other
          end
      | other => other
      end
  | other => other
  end.

(** [np.floor_divide] on doubles.  A zero divisor gives an infinity or a
    NaN (a warning, not an exception). *)
Definition float_floor_divide (x y : float64) : float64 :=
  match x, y with
  | NaN, _ | _, NaN => NaN
  | Infinity _, _ => NaN
  | Finite a, Infinity s =>
      if negb (Qzero a) && negb (Bool.eqb (Qneg a) s) then Finite (-1)
      else Finite 0
  | Finite a, Finite b =>
      if Qzero b then (if Qzero a then NaN else Infinity (Qneg a))
      else npy_divmod_quotient a b
  end.

(** [.astype(int)]: a double that is not finite, or whose integer part
    does not fit 64 bits, becomes the integer indefinite value. *)
Definition int_indefinite : Z := - 2 ^ 63.

Definition astype_int (x : float64) : Z :=
  match x with
  | Finite q =>
      let z := Qtrunc q in
      if (- 2 ^ 63 <=? z) && (z <? 2 ^ 63) then z else int_indefinite
  | _ => int_indefinite
  end.

(** [np.floor_divide(p, d).astype(int)]. *)
Definition floor_divide_int (p d : float64) : Z :=
  astype_int (float_floor_divide p d).

(** The product of an int64 row and an int64 column, in int64. *)
Definition dot (xs ys : list Z) : Z :=
  wrap64 (fold_right Z.add 0 (zip_with Z.mul xs ys)).

(** [np.dot(rows, v[:, None])]: an (M,N) by (N,1) product, of shape (M,1). *)
Definition np_dot_column (rows : list (list Z)) (v : list Z)
  : result (list (list Z)) :=
  mapM (fun row =>
          if Nat.eqb (length row) (length v) then ret [dot row v]
          else raise (ValueError "shapes not aligned"))
       rows.

(** [np.hstack] of two two-dimensional arrays of one column each, as the
    two-column array of pairs. *)
Definition np_hstack_columns (xs ys : list (list Z)) : result (list (Z * Z)) :=
  if Nat.eqb (length xs) (length ys) then
    ret (zip_with (fun x y => (hd 0 x, hd 0 y)) xs ys)
  else raise (ValueError "all the input array dimensions must match").

(** ** [compute_linearized_bin_coords] *)

Definition np_ones_like (l : list Z) : list Z := map (fun _ => 1) l.

(** [shifted = ones_like(bins_per_axis); shifted[:-1] = bins_per_axis[1:]]. *)
Definition shifted_nbins (bins_per_axis : list Z) : list Z :=
  let ones := np_ones_like bins_per_axis in
  tl bins_per_axis ++ skipn (length (removelast ones)) ones.

(** The returned expression, as a function of what the name [bin_coords]
    denotes in it. *)
Definition linearized_dot (bins_per_axis : list Z) (bin_coords : list (list Z))
  : result (list (list Z)) :=
  np_dot_column bin_coords (shifted_nbins bins_per_axis).

(** The parameter is called [bins_coords]; the body reads [bin_coords],
    which is not a local and is resolved in the module namespace. *)
Definition compute_linearized_bin_coords
           (bins_per_axis : list Z) (bins_coords : list (list Z))
  : result (list (list Z)) :=
  bin_coords <- load_global "bin_coords" ;;
  linearized_dot bins_per_axis bin_coords.

(** The linearization the documentation describes: the multiplier of an
    axis is the product of the bin counts of the axes after it. *)
Fixpoint spec_multipliers (bins_per_axis : list Z) : list Z :=
  match bins_per_axis with
  | [] => []
  | _ :: t => fold_right Z.mul 1 t :: spec_multipliers t
  end.

Definition spec_dot (xs ys : list Z) : Z :=
  fold_right Z.add 0 (zip_with Z.mul xs ys).

Definition spec_linearized (bins_per_axis : list Z) (coords : list (list Z))
  : list Z :=
  map (fun row => spec_dot row (spec_multipliers bins_per_axis)) coords.

(** ** [distribute_subproblems] *)

Record subproblem : Type := mk_subproblem {
  sub_points : list (list Q);
  sub_bin_coords : list Z;
  sub_indexes : list Z;
  sub_weights : list Q
}.

(** Lines 173 to 181: [bins_per_axis], then [bin_coords] after the clip. *)
Definition compute_bins_per_axis (uniform_grid_cell_count bins_size : list Z)
  : result (list Z) :=
  broadcast2 Z.div uniform_grid_cell_count bins_size.

Definition compute_bin_coords
           (uniform_grid_cell_size : list Q)
           (uniform_grid_cell_count bins_size : list Z)
           (pts : list (list Q)) : result (list (list Z)) :=
  bin_extent <- broadcast2 (fun s b => float_mul (double_of_Q s) (double_of_int b))
                           uniform_grid_cell_size bins_size ;;
  bin_coords <- broadcast_rows (fun p d => floor_divide_int (double_of_Q p) d)
                               pts bin_extent ;;
  broadcast_rows_out Z.min bin_coords
                     (map (fun c => wrap64 (c - 1)) uniform_grid_cell_count).

Definition bin_content_tuple (weights : list Q) (bin_content : list Z)
           (pts : list (list Q)) (bin_coords : list (list Z))
  : result subproblem :=
  p <- getitems pts bin_content ;;
  first <- getitem bin_content 0 ;;
  b <- getitem bin_coords first ;;
  w <- getitems weights bin_content ;;
  ret (mk_subproblem p b bin_content w).

(** The outer [result] is what the call itself raises in the orchestrating
    process; each inner one is the outcome of one future. *)
Definition distribute_subproblems
           (uniform_grid_cell_size : list Q)
           (uniform_grid_cell_count bins_size : list Z)
           (pts : list (list Q)) (weights : list Q) (pts_per_future : Z)
  : result (list (result subproblem)) :=
  bins_per_axis <- compute_bins_per_axis uniform_grid_cell_count bins_size ;;
  bin_coords <- compute_bin_coords uniform_grid_cell_size
                                   uniform_grid_cell_count bins_size pts ;;
  linearized_bin_coords <-
    compute_linearized_bin_coords bins_per_axis bin_coords ;;
  aug_linearized_bin_coords <-
    np_hstack_columns linearized_bin_coords
      (map (fun i => [Z.of_nat i]) (arange (length pts))) ;;
  let indexes_inside_bins := group_by aug_linearized_bin_coords in
  let subproblems := extract_subproblems indexes_inside_bins pts_per_future in
  (* client.map consumes the generator over the lazy subproblems *)
  bins <- sequence subproblems ;;
  ret (map (fun subgroup => bin_content_tuple weights subgroup pts bin_coords)
           (concat bins)).

(** ** The per-subproblem mapper and the entry point

    Distances and mapped values are array entries of an abstract type [D]
    with its strict order; [zero] and [cast] are the zero of the point
    array's dtype and the conversion to it.  The grid patch, its index
    tuple and the norm over the spatial axes are parameters as well; arrays
    of distances are taken flat, in C order. *)

Section Mapper.
Variable D : Type.
Variable zero : D.
Variable ltb : D -> D -> bool.
Variable cast : D -> D.
Variables Grid GridIdx : Type.
Variable norm_distances : Grid -> list (list Q) -> list D.

Definition build_uniform_grid_bin : result (Grid * GridIdx) :=
  grid <- load_global "grid" ;;
  idxes <- load_global "idxes" ;;
  ret (grid, idxes).

(** [arr[mask]]. *)
Fixpoint mask_select (mask : list bool) (arr : list D) : list D :=
  match mask, arr with
  | b :: m, x :: t => if b then x :: mask_select m t else mask_select m t
  | _, _ => []
  end.

Fixpoint mask_fill (mask : list bool) (arr vals : list D) : list D :=
  match mask, arr with
  | true :: m, x :: t =>
      match vals with
      | v :: vs => v :: mask_fill m t vs
      | [] => x :: mask_fill m t []
      end
  | false :: m, x :: t => x :: mask_fill m t vals
  | _, _ => arr
  end.

(** [arr[mask] = vals]: as many values as selected entries, or one value
    for all of them. *)
Definition mask_assign (mask : list bool) (arr vals : list D)
  : result (list D) :=
  let n := length (filter (fun b => b) mask) in
  if Nat.eqb (length vals) n then ret (mask_fill mask arr vals)
  else
    match vals with
    | [v] => ret (mask_fill mask arr (repeat v n))
    | _ => raise (ValueError "cannot assign input values to the masked output")
    end.

(** Lines 256 to 258.  The result array is allocated with the dtype of the
    point array, so the assignment converts what the function returns:
    [cast] is that conversion, [zero] the zero of that dtype. *)
Definition apply_cutoff (function : list D -> list D) (max_distance : D)
           (distances : list D) : result (list D) :=
  let nearby := map (fun d => ltb d max_distance) distances in
  let mapped_distance := map (fun _ => zero) distances in
  mask_assign nearby mapped_distance
              (map cast (function (mask_select nearby distances))).

(** The body reads [subgroups_and_coords] and [max_distance]; the
    parameters are [subgroup_info] and [max_distance_in_cells]. *)
Definition compute_mapped_distance_on_subgroup
           (subgroup_info : subproblem)
           (uniform_grid_cell_size : list Q)
           (uniform_grid_cell_count bins_size : list Z)
           (max_distance_in_cells : D)
           (function : list D -> list D)
           (exact_max_distance : bool)
           (reference_bin : list Z)
  : result (list D * (GridIdx * list Z)) :=
  subgroups_and_coords <- load_global "subgroups_and_coords" ;;
  let '(mk_subproblem subgroup bin_coords nup_idxes weights) :=
    subgroups_and_coords in
  built <- build_uniform_grid_bin ;;
  let '(uniform_grid, samples1_idxes) := built in
  let distances := norm_distances uniform_grid subgroup in
  mapped_distance <-
    (if exact_max_distance then
       max_distance <- load_global "max_distance" ;;
       apply_cutoff function max_distance distances
     else ret (function distances)) ;;
  ret (mapped_distance, (samples1_idxes, nup_idxes)).

Definition np_ones (n : nat) : list Q := repeat 1%Q n.

(** The call of [distribute_subproblems] passes four positional arguments,
    the third of them the unbound name [samples2], and the keywords
    [pts_per_future] and [client]; the parameter [weights] of the callee
    receives nothing.  The statements after the call are not reached. *)
Definition mapped_distance_matrix
           (uniform_grid_cell_size : list Q)
           (uniform_grid_cell_count bins_size : list Z)
           (non_uniform_points : list (list Q))
           (max_distance : D)
           (func : list D -> list D)
           (weights : option (list Q))
           (exact_max_distance : bool)
           (pts_per_future : Z)
  : result (list (list D)) :=
  let weights :=
    match weights with
    | None => np_ones (length non_uniform_points)
    | Some w => w
    end in
  samples2 <- load_global (A := list (list Q)) "samples2" ;;
  raise (TypeError
    "distribute_subproblems() missing 1 required positional argument: 'weights'").
End Mapper.

(** ** Notions used in the statements *)

(** Division points of consecutive sections of the given sizes. *)
Fixpoint prefix_sums (start : nat) (sizes : list nat) : list nat :=
  match sizes with
  | [] => [start]
  | s :: t => start :: prefix_sums (start + s) t
  end.

(** Cutting a list into consecutive pieces of the given sizes. *)
Fixpoint chunks {A : Type} (sizes : list nat) (l : list A) : list (list A) :=
  match sizes with
  | [] => []
  | s :: t => firstn s l :: chunks t (skipn s l)
  end.

(** Ascending order of the keys. *)
Definition key_le {B : Type} (key : B -> Z) (x y : B) : Prop := key x <= key y.

(** The rows of key [k], and the others. *)
Definition same_key (k : Z) (r : Z * Z) : bool := fst r =? k.
Definition other_key (k : Z) (r : Z * Z) : bool := negb (fst r =? k).

(** The values paired with the key [k], in input order. *)
Definition values_of_key (k : Z) (a : list (Z * Z)) : list Z :=
  map snd (filter (fun r => fst r =? k) a).


(** One row of [bin_coords] when the point has as many coordinates as the
    geometry has axes. *)
Definition bin_coords_row (uniform_grid_cell_size : list Q)
           (uniform_grid_cell_count bins_size : list Z) (row : list Q)
  : list Z :=
  zip_with Z.min
    (zip_with (fun p d => floor_divide_int (double_of_Q p) d) row
       (zip_with (fun s b => float_mul (double_of_Q s) (double_of_int b))
                 uniform_grid_cell_size bins_size))
    (map (fun c => wrap64 (c - 1)) uniform_grid_cell_count).


(** * Properties *)

(** ** Sections of an array *)


Lemma sub_arrays_prefix_sums {A : Type} (sizes : list nat) :
  forall (start : nat) (l : list A),
    sub_arrays (prefix_sums start sizes) (length sizes) l
    = chunks sizes (skipn start l).
Proof.
  unfold sub_arrays.
  induction sizes as [|s t IH]; intros start l.
  - reflexivity.
  - cbn [length seq map chunks prefix_sums].
    f_equal.
    + cbn [nth]. destruct t; cbn [prefix_sums nth]; unfold slice;
        now rewrite firstn_skipn_comm.
    + rewrite <- seq_shift, map_map.
      rewrite skipn_skipn, (Nat.add_comm s start).
      rewrite <- IH.
      apply map_ext; intros i. reflexivity.
Qed.








(** ** The rounded quotient *)

Lemma scale_up_pos (x e : Z) : 0 < x -> 0 < scale_up x e.
Proof.
  intros Hx. unfold scale_up.
  apply Z.mul_pos_pos; [exact Hx|]. apply Z.pow_pos_nonneg; lia.
Qed.

Lemma round_half_even_cases (num den : Z) :
  0 < den ->
  exists q r,
    num = den * q + r /\ 0 <= r < den
    /\ ((2 * r < den /\ round_half_even num den = q)
        \/ (den < 2 * r /\ round_half_even num den = q + 1)
        \/ (2 * r = den
            /\ (round_half_even num den = q \/ round_half_even num den = q + 1))).
Proof.
  intros Hden. exists (num / den), (num mod den).
  split; [apply Z.div_mod; lia|].
  split; [apply Z.mod_pos_bound; exact Hden|].
  unfold round_half_even.
  destruct (Z.compare_spec (2 * (num mod den)) den) as [E|E|E].
  - right. right. split; [exact E|]. destruct (Z.even _); auto.
  - left. auto.
  - right. left. auto.
Qed.

Lemma round_half_even_nonneg (num den : Z) :
  0 <= num -> 0 < den -> 0 <= round_half_even num den.
Proof.
  intros Hn Hd.
  destruct (round_half_even_cases num den Hd) as (q & r & E & Hr & H).
  assert (0 <= q) by nia.
  destruct H as [[_ ->]|[[_ ->]|[_ [->| ->]]]]; lia.
Qed.




Lemma ceil_div_negative_divisor (len k : Z) :
  0 <= len -> k < 0 -> ceil_div len k <= 0.
Proof.
  intros Hlen Hk. unfold ceil_div.
  destruct (Z.eqb_spec len 0) as [?|Hne]; [lia|].
  destruct (round_binary64 (Z.abs len) (Z.abs k)) as [m e] eqn:E.
  destruct (Z.ltb_spec 0 k); [lia|]. destruct (Z.ltb_spec len 0); [lia|].
  rewrite !andb_false_r. cbn [orb].
  unfold round_binary64 in E. injection E as <- <-.
  set (e := Z.max _ _).
  set (m := round_half_even _ _).
  assert (Hm : 0 <= m).
  { apply round_half_even_nonneg.
    - apply Z.lt_le_incl, scale_up_pos. lia.
    - apply scale_up_pos. lia. }
  clearbody m. clearbody e.
  destruct (Z.leb_spec 0 e).
  - apply Z.opp_nonpos_nonneg, Z.mul_nonneg_nonneg; [exact Hm|].
    apply Z.pow_nonneg. lia.
  - pose proof (Z.pow_pos_nonneg 2 (- e) ltac:(lia) ltac:(lia)).
    apply Z.opp_nonpos_nonneg, Z.div_pos; assumption.
Qed.

(** ** Bounded extraction *)


Lemma extract_subproblems_unbounded (indexes : list (list Z)) :
  extract_subproblems indexes (-1) = map (fun arr => ret [arr]) indexes.
Proof. reflexivity. Qed.





(** C4 as stated fails for a bound the double quotient cannot represent:
    with k = 10^400 the quotient 5 / k is 0.0, zero sections are asked for,
    and the bin of five indices raises [ValueError]. *)
Lemma extract_subproblems_huge_bound :
  1 <= 10 ^ 400
  /\ extract_subproblems [[0; 1; 2; 3; 4]] (10 ^ 400)
     = [raise (ValueError "number sections must be larger than 0.")].
Proof.
  split; [apply Z.leb_le | ]; vm_compute; reflexivity.
Qed.

(** C10. For a bound k >= 1, bounded extraction raises on an empty index
    list: it asks the splitting routine for ceil(0/k) = 0 sections, which is
    a [ValueError], where zero subproblems would have been the other
    reading; the bins before and after it are unaffected.  With the
    sentinel -1 the empty list is accepted and yields one empty
    subproblem. *)
Theorem extract_subproblems_empty_bin (before after : list (list Z)) (k : Z) :
  1 <= k ->
  ceil_div (Z.of_nat (length (@nil Z))) k = 0
  /\ extract_subproblems (before ++ [] :: after) k
     = extract_subproblems before k
       ++ raise (ValueError "number sections must be larger than 0.")
       :: extract_subproblems after k
  /\ extract_subproblems (before ++ [] :: after) (-1)
     = extract_subproblems before (-1)
       ++ ret [[]] :: extract_subproblems after (-1).
Proof.
  intros Hk.
  assert (Hc : ceil_div (Z.of_nat (length (@nil Z))) k = 0).
  { reflexivity. }
  split; [exact Hc|]. split.
  - unfold extract_subproblems.
    destruct (Z.eqb_spec k (-1)) as [?|_]; [lia|]. cbn [negb].
    destruct (Z.eqb_spec k 0) as [?|_]; [lia|].
    rewrite map_app. cbn [map]. rewrite Hc. reflexivity.
  - rewrite !extract_subproblems_unbounded, map_app. reflexivity.
Qed.

Lemma extract_subproblems_empty_bin_witness :
  ceil_div (Z.of_nat (length (@nil Z))) 3 = 0
  /\ extract_subproblems ([[4; 5]] ++ [] :: [[7]]) 3
     = extract_subproblems [[4; 5]] 3
       ++ raise (ValueError "number sections must be larger than 0.")
       :: extract_subproblems [[7]] 3
  /\ extract_subproblems ([[4; 5]] ++ [] :: [[7]]) (-1)
     = extract_subproblems [[4; 5]] (-1)
       ++ ret [[]] :: extract_subproblems [[7]] (-1).
Proof.
  apply (extract_subproblems_empty_bin [[4; 5]] [[7]] 3). lia.
Defined.

(** ** Sorting by key *)

Section SortFacts.
Context {B : Type}.
Variable key : B -> Z.

Lemma insert_by_perm (x : B) (l : list B) :
  Permutation (insert_by key x l) (x :: l).
Proof.
  induction l as [|y t IH]; simpl.
  - apply Permutation_refl.
  - destruct (key x <=? key y).
    + apply Permutation_refl.
    + eapply perm_trans; [apply perm_skip, IH | apply perm_swap].
Qed.

Lemma sort_by_perm (l : list B) : Permutation (sort_by key l) l.
Proof.
  induction l as [|x t IH]; simpl.
  - constructor.
  - eapply perm_trans; [apply insert_by_perm | now apply perm_skip].
Qed.

Lemma insert_by_sorted (x : B) (l : list B) :
  StronglySorted (key_le key) l -> StronglySorted (key_le key) (insert_by key x l).
Proof.
  induction 1 as [|y t Hs IH Hall]; simpl.
  - repeat constructor.
  - destruct (Z.leb_spec (key x) (key y)) as [Hxy|Hxy].
    + constructor; [now constructor|].
      constructor; [exact Hxy|].
      eapply Forall_impl; [|exact Hall].
      intros z Hz. unfold key_le in *. lia.
    + constructor; [exact IH|].
      eapply Permutation_Forall;
        [apply Permutation_sym, insert_by_perm|].
      constructor; [unfold key_le; lia | exact Hall].
Qed.

Lemma sort_by_sorted (l : list B) : StronglySorted (key_le key) (sort_by key l).
Proof.
  induction l as [|x t IH]; simpl.
  - constructor.
  - now apply insert_by_sorted.
Qed.

(** A sorted list is left as it is. *)
Lemma sort_by_fixed (l : list B) :
  StronglySorted (key_le key) l -> sort_by key l = l.
Proof.
  induction 1 as [|x t Hs IH Hall]; simpl.
  - reflexivity.
  - rewrite IH. destruct t as [|y t']; simpl; [reflexivity|].
    inversion Hall as [|? ? Hxy _]; subst. unfold key_le in Hxy.
    destruct (Z.leb_spec (key x) (key y)); [reflexivity | lia].
Qed.

(** Equal keys keep their input order. *)
Lemma filter_insert_by (k : Z) (x : B) (l : list B) :
  filter (fun r => key r =? k) (insert_by key x l)
  = if key x =? k then x :: filter (fun r => key r =? k) l
    else filter (fun r => key r =? k) l.
Proof.
  induction l as [|y t IH]; simpl.
  - reflexivity.
  - destruct (Z.leb_spec (key x) (key y)) as [Hxy|Hxy]; simpl.
    + reflexivity.
    + rewrite IH.
      destruct (Z.eqb_spec (key y) k), (Z.eqb_spec (key x) k);
        try reflexivity; lia.
Qed.

Lemma filter_sort_by (k : Z) (l : list B) :
  filter (fun r => key r =? k) (sort_by key l)
  = filter (fun r => key r =? k) l.
Proof.
  induction l as [|x t IH]; simpl.
  - reflexivity.
  - rewrite filter_insert_by, IH. reflexivity.
Qed.
End SortFacts.

Section SortMap.
Context {B C : Type}.
Variables (key : B -> Z) (key' : C -> Z) (g : B -> C).

Lemma map_insert_by (x : B) (l : list B) :
  key' (g x) = key x ->
  (forall y, In y l -> key' (g y) = key y) ->
  map g (insert_by key x l) = insert_by key' (g x) (map g l).
Proof.
  intros Hx. induction l as [|y t IH]; intros Hl; simpl.
  - reflexivity.
  - rewrite Hx, (Hl y (or_introl eq_refl)).
    destruct (key x <=? key y); simpl.
    + reflexivity.
    + rewrite IH; [reflexivity|]. intros z Hz. apply Hl. now right.
Qed.

Lemma map_sort_by (l : list B) :
  (forall y, In y l -> key' (g y) = key y) ->
  map g (sort_by key l) = sort_by key' (map g l).
Proof.
  induction l as [|x t IH]; intros Hl; simpl.
  - reflexivity.
  - rewrite map_insert_by.
    + rewrite IH; [reflexivity|]. intros z Hz. apply Hl. now right.
    + apply Hl. now left.
    + intros y Hy. apply Hl. right.
      eapply Permutation_in; [apply sort_by_perm | exact Hy].
Qed.
End SortMap.

(** [a[a[:, 0].argsort()]] is [a] sorted by its first column. *)
Lemma combine_arange_rows (d : Z * Z) (a : list (Z * Z)) (s : nat) :
  map (fun ki => nth (snd ki - s) a d) (combine (map fst a) (seq s (length a))) = a
  /\ forall ki, In ki (combine (map fst a) (seq s (length a))) ->
                fst (nth (snd ki - s) a d) = fst ki.
Proof.
  revert s. induction a as [|[k v] t IH]; intros s.
  - split; [reflexivity | intros ki []].
  - destruct (IH (S s)) as [IHmap IHin].
    assert (Hshift : forall ki,
               In ki (combine (map fst t) (seq (S s) (length t))) ->
               nth (snd ki - s) ((k, v) :: t) d = nth (snd ki - S s) t d).
    { intros [k' i] Hin. apply in_combine_r, in_seq in Hin. cbn [snd].
      replace (i - s)%nat with (S (i - S s)) by lia. reflexivity. }
    split.
    + cbn [length seq map combine fst snd]. rewrite Nat.sub_diag.
      f_equal.
      etransitivity; [|exact IHmap]. apply map_ext_in. exact Hshift.
    + cbn [length seq map combine fst]. intros ki [<-|Hin].
      * cbn [snd fst]. now rewrite Nat.sub_diag.
      * rewrite Hshift by exact Hin. now apply IHin.
Qed.

Lemma take_rows_argsort (a : list (Z * Z)) :
  take_rows (0, 0) a (argsort (map fst a)) = sort_by fst a.
Proof.
  unfold take_rows, argsort, arange. rewrite map_map, length_map.
  destruct (combine_arange_rows (0, 0) a 0) as [Hmap Hin].
  rewrite (map_sort_by fst fst (fun ki => nth (snd ki) a (0, 0))).
  - f_equal. etransitivity; [|exact Hmap]. apply map_ext. intros ki.
    now rewrite Nat.sub_0_r.
  - intros ki Hki. specialize (Hin ki Hki). now rewrite Nat.sub_0_r in Hin.
Qed.

(** ** Distinct keys and their first occurrences *)

Lemma dedup_adjacent_In (x : Z) (l : list Z) :
  In x (dedup_adjacent l) <-> In x l.
Proof.
  induction l as [|y t IH].
  - reflexivity.
  - destruct t as [|z t'].
    + reflexivity.
    + change (dedup_adjacent (y :: z :: t'))
        with (if y =? z then dedup_adjacent (z :: t')
              else y :: dedup_adjacent (z :: t')).
      destruct (Z.eqb_spec y z) as [->|Hyz].
      * rewrite IH. simpl. tauto.
      * simpl In at 1. rewrite IH. simpl. tauto.
Qed.

Lemma dedup_adjacent_sorted (l : list Z) :
  StronglySorted Z.le l -> StronglySorted Z.lt (dedup_adjacent l).
Proof.
  induction 1 as [|y t Hs IH Hall].
  - constructor.
  - destruct t as [|z t'].
    + repeat constructor.
    + change (dedup_adjacent (y :: z :: t'))
        with (if y =? z then dedup_adjacent (z :: t')
              else y :: dedup_adjacent (z :: t')).
      destruct (Z.eqb_spec y z) as [->|Hyz]; [exact IH|].
      constructor; [exact IH|].
      apply Forall_forall. intros w Hw. rewrite dedup_adjacent_In in Hw.
      inversion Hall as [|? ? Hyz' _]; subst.
      inversion Hs as [|? ? _ Hz]; subst.
      destruct (in_inv Hw) as [<-|Hw']; [lia|]. clear Hw. rename Hw' into Hw.
      rewrite Forall_forall in Hz. specialize (Hz w Hw). lia.
Qed.

Lemma np_unique_In (k : Z) (ks : list Z) : In k (np_unique ks) <-> In k ks.
Proof.
  unfold np_unique. rewrite dedup_adjacent_In.
  split; apply Permutation_in;
    [| apply Permutation_sym]; apply sort_by_perm.
Qed.

Lemma np_unique_sorted (ks : list Z) : StronglySorted Z.lt (np_unique ks).
Proof.
  apply dedup_adjacent_sorted.
  exact (sort_by_sorted (fun k => k) ks).
Qed.

Lemma np_unique_sort_by (a : list (Z * Z)) :
  np_unique (map fst (sort_by fst a)) = np_unique (map fst a).
Proof.
  unfold np_unique.
  rewrite (map_sort_by fst (fun k => k) fst) by reflexivity.
  now rewrite (sort_by_fixed (fun k => k)) by apply sort_by_sorted.
Qed.

Lemma first_index_app (k : Z) (l1 l2 : list Z) :
  ~ In k l1 ->
  first_index k (l1 ++ l2) = (length l1 + first_index k l2)%nat.
Proof.
  induction l1 as [|x t IH]; intros Hk; simpl.
  - reflexivity.
  - destruct (Z.eqb_spec x k) as [->|_].
    + exfalso. apply Hk. now left.
    + rewrite IH; [reflexivity|]. intros Hin. apply Hk. now right.
Qed.

(** ** Blocks of equal keys in a sorted array *)

Lemma filter_all {A : Type} (p : A -> bool) (l : list A) :
  (forall x, In x l -> p x = true) -> filter p l = l.
Proof.
  induction l as [|x t IH]; intros H; simpl.
  - reflexivity.
  - rewrite (H x (or_introl eq_refl)), IH; [reflexivity|].
    intros y Hy. apply H. now right.
Qed.

Lemma filter_none {A : Type} (p : A -> bool) (l : list A) :
  (forall x, In x l -> p x = false) -> filter p l = [].
Proof.
  induction l as [|x t IH]; intros H; simpl.
  - reflexivity.
  - rewrite (H x (or_introl eq_refl)). apply IH.
    intros y Hy. apply H. now right.
Qed.

Lemma filter_filter_sub {A : Type} (p q : A -> bool) (l : list A) :
  (forall x, p x = true -> q x = true) ->
  filter p (filter q l) = filter p l.
Proof.
  intros H. induction l as [|x t IH]; simpl.
  - reflexivity.
  - destruct (q x) eqn:Hq; simpl.
    + now rewrite IH.
    + destruct (p x) eqn:Hp; [|exact IH].
      apply H in Hp. congruence.
Qed.

Lemma StronglySorted_filter {A : Type} (R : A -> A -> Prop) (p : A -> bool)
      (l : list A) :
  StronglySorted R l -> StronglySorted R (filter p l).
Proof.
  induction 1 as [|x t Hs IH Hall]; simpl.
  - constructor.
  - destruct (p x); [|exact IH].
    constructor; [exact IH|].
    apply Forall_forall. intros y Hy. apply filter_In in Hy.
    rewrite Forall_forall in Hall. now apply Hall.
Qed.

Section Blocks.
Lemma sorted_key_split (k : Z) (a : list (Z * Z)) :
  StronglySorted (key_le fst) a ->
  (forall r, In r a -> k <= fst r) ->
  filter (same_key k) a ++ filter (other_key k) a = a.
Proof.
  unfold same_key, other_key.
  induction 1 as [|r t Hs IH Hall]; intros Hlow.
  - reflexivity.
  - assert (Hr := Hlow r (or_introl eq_refl)).
    destruct (Z.eq_dec (fst r) k) as [Heq|Hne].
    + simpl. rewrite (proj2 (Z.eqb_eq _ _) Heq). simpl. f_equal.
      apply IH. intros y Hy. apply Hlow. now right.
    + rewrite Forall_forall in Hall. unfold key_le in Hall.
      rewrite filter_none, filter_all; [reflexivity | |].
      * intros y [<-|Hy]; apply negb_true_iff, Z.eqb_neq;
          [| specialize (Hall y Hy)]; lia.
      * intros y [<-|Hy]; apply Z.eqb_neq;
          [| specialize (Hall y Hy)]; lia.
Qed.

Lemma concat_blocks (u : list Z) :
  forall a : list (Z * Z),
    StronglySorted Z.lt u ->
    StronglySorted (key_le fst) a ->
    (forall r, In r a -> In (fst r) u) ->
    concat (map (fun k => filter (same_key k) a) u) = a.
Proof.
  induction u as [|k u' IH]; intros a Hu Ha Hkeys.
  - destruct a as [|r t]; [reflexivity|].
    destruct (Hkeys r (or_introl eq_refl)).
  - inversion Hu as [|? ? Hu' Hk]; subst. rewrite Forall_forall in Hk.
    cbn [map concat].
    transitivity (filter (same_key k) a ++ filter (other_key k) a).
    2:{ apply sorted_key_split; [exact Ha|].
        intros r Hr. destruct (Hkeys r Hr) as [<-|Hin]; [lia|].
        specialize (Hk _ Hin). lia. }
    f_equal.
    rewrite <- (IH (filter (other_key k) a) Hu').
    + f_equal. apply map_ext_in. intros k' Hk'. symmetry.
      apply filter_filter_sub. intros r Hr. unfold same_key, other_key in *.
      apply Z.eqb_eq in Hr. apply negb_true_iff, Z.eqb_neq.
      specialize (Hk _ Hk'). lia.
    + now apply StronglySorted_filter.
    + intros r Hr. apply filter_In in Hr. destruct Hr as [Hr Hne].
      unfold other_key in Hne. apply negb_true_iff, Z.eqb_neq in Hne.
      destruct (Hkeys r Hr) as [Heq|Hin]; [congruence | exact Hin].
Qed.

Lemma first_index_blocks (f : Z -> list (Z * Z)) (u : list Z) :
  forall pre : list (Z * Z),
    StronglySorted Z.lt u ->
    (forall k, In k u -> f k <> [] /\ forall r, In r (f k) -> fst r = k) ->
    (forall k, In k u -> ~ In k (map fst pre)) ->
    map (fun k => first_index k (map fst (pre ++ concat (map f u)))) u
        ++ [length (pre ++ concat (map f u))]
    = prefix_sums (length pre) (map (fun k => length (f k)) u).
Proof.
  induction u as [|k u' IH]; intros pre Hu Hf Hpre.
  - cbn. now rewrite app_nil_r.
  - inversion Hu as [|? ? Hu' Hk]; subst. rewrite Forall_forall in Hk.
    destruct (Hf k (or_introl eq_refl)) as [Hne Hkey].
    cbn [map concat prefix_sums app]. f_equal.
    + rewrite map_app, first_index_app by (apply Hpre; now left).
      rewrite length_map.
      destruct (f k) as [|r t]; [congruence|]. cbn [app map first_index].
      rewrite (Hkey r (or_introl eq_refl)), Z.eqb_refl. lia.
    + rewrite app_assoc, <- (length_app pre (f k)).
      rewrite <- (IH (pre ++ f k) Hu').
      * reflexivity.
      * intros k' Hk'. apply Hf. now right.
      * intros k' Hk' Hin. rewrite map_app in Hin.
        apply in_app_or in Hin. destruct Hin as [Hin|Hin].
        -- apply (Hpre k' (or_intror Hk')). exact Hin.
        -- apply in_map_iff in Hin. destruct Hin as (r & Hr & Hin).
           apply Hkey in Hin. specialize (Hk _ Hk'). lia.
Qed.
End Blocks.

Lemma chunks_concat {A : Type} (bs : list (list A)) :
  chunks (map (@length A) bs) (concat bs) = bs.
Proof.
  induction bs as [|b t IH]; simpl.
  - reflexivity.
  - rewrite firstn_app, Nat.sub_diag, firstn_all, firstn_O, app_nil_r.
    rewrite skipn_app, Nat.sub_diag, skipn_all, skipn_O. simpl.
    now rewrite IH.
Qed.

(** ** [group_by] *)

(** Splitting a key-sorted array at the first occurrences of its keys gives,
    key by key, the values of that key. *)
Lemma np_split_sorted (a : list (Z * Z)) (keys : list Z) :
  a <> [] ->
  StronglySorted Z.lt keys ->
  StronglySorted (key_le fst) a ->
  (forall k, In k keys <-> In k (map fst a)) ->
  np_split (map snd a) (tl (map (fun k => first_index k (map fst a)) keys))
  = map (fun k => values_of_key k a) keys.
Proof.
  intros Hne Hkeys Ha Hin.
  set (f := fun k : Z => filter (fun r : Z * Z => fst r =? k) a).
  assert (Hcat : concat (map f keys) = a).
  { apply (concat_blocks keys a Hkeys Ha).
    intros r Hr. apply Hin. now apply in_map. }
  assert (Hf : forall k, In k keys ->
                         f k <> [] /\ forall r, In r (f k) -> fst r = k).
  { intros k Hk. split.
    - apply Hin, in_map_iff in Hk. destruct Hk as (r & Hr & Hra).
      intros Hnil.
      assert (Hrf : In r (f k))
        by (apply filter_In; split; [exact Hra | now apply Z.eqb_eq]).
      rewrite Hnil in Hrf. destruct Hrf.
    - intros r Hr. apply filter_In in Hr. now apply Z.eqb_eq. }
  pose proof (first_index_blocks f keys [] Hkeys Hf (fun _ _ H => H)) as Hidx.
  cbn [app length] in Hidx. rewrite Hcat in Hidx.
  destruct keys as [|k1 keys'].
  { destruct a as [|r t]; [congruence|].
    destruct (proj2 (Hin (fst r)) (or_introl eq_refl)). }
  cbn [map prefix_sums app] in Hidx. injection Hidx as Hfirst Hrest.
  set (sizes := map (fun k => length (f k)) (k1 :: keys')).
  assert (Hdiv : 0%nat :: tl (map (fun k => first_index k (map fst a))
                                  (k1 :: keys'))
                         ++ [length (map snd a)]
                 = prefix_sums 0 sizes).
  { cbn [map tl]. rewrite length_map, Hrest. reflexivity. }
  unfold np_split. rewrite Hdiv.
  replace (S (length (tl (map (fun k => first_index k (map fst a))
                              (k1 :: keys')))))
    with (length sizes)
    by (unfold sizes; cbn [map tl length]; now rewrite !length_map).
  rewrite sub_arrays_prefix_sums. cbn [skipn]. unfold sizes.
  rewrite <- Hcat at 1. rewrite concat_map.
  rewrite <- (map_map f (@length (Z * Z))).
  rewrite <- (map_ext _ _ (fun l : list (Z * Z) => length_map snd l)).
  rewrite <- (map_map (map snd) (@length Z)).
  rewrite chunks_concat. rewrite map_map. reflexivity.
Qed.

Lemma group_by_values (a : list (Z * Z)) :
  a <> [] ->
  group_by a = map (fun k => values_of_key k a) (np_unique (map fst a)).
Proof.
  intros Hne. unfold group_by. rewrite take_rows_argsort.
  unfold np_unique_index. rewrite np_unique_sort_by.
  rewrite (np_split_sorted (sort_by fst a)).
  - apply map_ext. intros k. unfold values_of_key.
    now rewrite (filter_sort_by fst).
  - intros Hnil. apply Hne.
    apply Permutation_nil. rewrite <- Hnil.
    apply sort_by_perm.
  - apply np_unique_sorted.
  - apply sort_by_sorted.
  - intros k. rewrite np_unique_In. split; apply Permutation_in.
    + apply Permutation_map, Permutation_sym, sort_by_perm.
    + apply Permutation_map, sort_by_perm.
Qed.

Lemma Forall2_map_r {A B : Type} (P : A -> B -> Prop) (h : A -> B) (l : list A) :
  (forall x, In x l -> P x (h x)) -> Forall2 P l (map h l).
Proof.
  induction l as [|x t IH]; intros H; simpl; constructor.
  - apply H. now left.
  - apply IH. intros y Hy. apply H. now right.
Qed.


Lemma group_by_concat (a : list (Z * Z)) :
  a <> [] -> Permutation (concat (group_by a)) (map snd a).
Proof.
  intros Hne. rewrite group_by_values by exact Hne.
  rewrite <- np_unique_sort_by.
  rewrite (map_ext (fun k => values_of_key k a)
                   (fun k => map snd (filter (fun r => fst r =? k)
                                             (sort_by fst a)))).
  2:{ intros k. unfold values_of_key. now rewrite (filter_sort_by fst). }
  rewrite <- (map_map (fun k => filter (fun r => fst r =? k) (sort_by fst a))
                      (map snd)).
  rewrite <- concat_map.
  pose proof (concat_blocks (np_unique (map fst (sort_by fst a)))
                            (sort_by fst a)
                            (np_unique_sorted _) (sort_by_sorted fst a)) as Hcat.
  unfold same_key in Hcat. rewrite Hcat.
  - apply Permutation_map, sort_by_perm.
  - intros r Hr. apply np_unique_In. now apply in_map.
Qed.

(** C5. For a non-empty two-column array, [group_by] returns one group per
    distinct key, in ascending key order; the group of a key holds exactly
    the values paired with that key; the group sizes add up to the number
    of rows.  The docstring's rows, keys 0,1,1,0,2 with values 1..5, give
    [[1,4],[2,3],[5]]. *)
Theorem group_by_groups (a : list (Z * Z)) :
  a <> [] ->
  (exists keys : list Z,
      StronglySorted Z.lt keys
      /\ (forall k, In k keys <-> In k (map fst a))
      /\ Forall2 (fun k g => Permutation g (values_of_key k a))
                 keys (group_by a))
  /\ list_sum (map (@length Z) (group_by a)) = length a
  /\ group_by [(0, 1); (1, 2); (1, 3); (0, 4); (2, 5)] = [[1; 4]; [2; 3]; [5]].
Proof.
  intros Hne. split; [|split].
  - exists (np_unique (map fst a)). split; [apply np_unique_sorted|].
    split; [intros k; apply np_unique_In|].
    rewrite group_by_values by exact Hne.
    apply Forall2_map_r. intros k _. apply Permutation_refl.
  - rewrite <- length_concat.
    rewrite (Permutation_length (group_by_concat a Hne)).
    apply length_map.
  - reflexivity.
Qed.

Lemma group_by_groups_witness :
  (exists keys : list Z,
      StronglySorted Z.lt keys
      /\ (forall k, In k keys <-> In k (map fst [(7, 10); (3, 11); (7, 12)]))
      /\ Forall2 (fun k g =>
                    Permutation g (values_of_key k [(7, 10); (3, 11); (7, 12)]))
                 keys (group_by [(7, 10); (3, 11); (7, 12)]))
  /\ list_sum (map (@length Z) (group_by [(7, 10); (3, 11); (7, 12)]))
     = length [(7, 10); (3, 11); (7, 12)]
  /\ group_by [(0, 1); (1, 2); (1, 3); (0, 4); (2, 5)] = [[1; 4]; [2; 3]; [5]].
Proof.
  apply (group_by_groups [(7, 10); (3, 11); (7, 12)]). discriminate.
Defined.

(** C9. On an array with zero rows [group_by] does not raise, and it
    returns one group, which is empty: the split at no boundary yields the
    whole (empty) value column as its single section. *)
Theorem group_by_empty_input :
  group_by [] = [[]] /\ length (group_by []) = 1%nat.
Proof. split; reflexivity. Qed.

(** ** The documented linearization is injective *)

Lemma spec_dot_cons (x m : Z) (xs ms : list Z) :
  spec_dot (x :: xs) (m :: ms) = x * m + spec_dot xs ms.
Proof. reflexivity. Qed.

Lemma spec_linearized_bounds (bins coords : list Z) :
  Forall2 (fun b c => 0 <= c < b) bins coords ->
  0 <= spec_dot coords (spec_multipliers bins) < fold_right Z.mul 1 bins.
Proof.
  induction 1 as [|b c bins' coords' Hc _ IH].
  - cbn. lia.
  - cbn [spec_multipliers fold_right]. rewrite spec_dot_cons.
    set (P := fold_right Z.mul 1 bins') in *.
    set (r := spec_dot coords' (spec_multipliers bins')) in *.
    nia.
Qed.

Lemma spec_linearized_injective (bins c1 c2 : list Z) :
  Forall2 (fun b c => 0 <= c < b) bins c1 ->
  Forall2 (fun b c => 0 <= c < b) bins c2 ->
  spec_dot c1 (spec_multipliers bins) = spec_dot c2 (spec_multipliers bins) ->
  c1 = c2.
Proof.
  intros H1. revert c2.
  induction H1 as [|b x1 bins' t1 Hx1 Ht1 IH]; intros c2 H2 Heq.
  - now inversion H2.
  - inversion H2 as [|? x2 ? t2 Hx2 Ht2]; subst.
    cbn [spec_multipliers] in Heq. rewrite !spec_dot_cons in Heq.
    pose proof (spec_linearized_bounds bins' t1 Ht1) as B1.
    pose proof (spec_linearized_bounds bins' t2 Ht2) as B2.
    set (P := fold_right Z.mul 1 bins') in *.
    assert (x1 = x2) by nia. subst x2.
    f_equal. apply IH; [exact Ht2 | lia].
Qed.

(** ** Linearization *)

Lemma compute_linearized_bin_coords_unbound
      (bins_per_axis : list Z) (bins_coords : list (list Z)) :
  compute_linearized_bin_coords bins_per_axis bins_coords
  = raise (NameError "bin_coords").
Proof. reflexivity. Qed.

(** Up to two axes the multipliers of the code are the documented ones. *)
Lemma shifted_nbins_two_axes (b0 b1 : Z) :
  shifted_nbins [b1] = spec_multipliers [b1]
  /\ shifted_nbins [b0; b1] = spec_multipliers [b0; b1].
Proof.
  unfold shifted_nbins. cbn. split; repeat f_equal; lia.
Qed.

(** C1. On the docstring's input, bins per axis [1,3,2] and the four
    coordinates, the documented linearization gives [3,9,1,10].  The call
    raises [NameError]: the body reads [bin_coords], the parameter is
    [bins_coords].  With that name read as the parameter, the multipliers
    are the bin counts shifted by one axis, [3,2,1], not the products
    [6,2,1], and the result is the column [[3],[6],[1],[7]]; with bins per
    axis [2,3,2] the valid coordinates (0,1,1) and (1,0,0) get the same
    index 3. *)
Theorem linearization_docstring_example :
  spec_linearized [1; 3; 2] [[0; 1; 1]; [1; 1; 1]; [0; 0; 1]; [1; 2; 0]]
  = [3; 9; 1; 10]
  /\ compute_linearized_bin_coords
       [1; 3; 2] [[0; 1; 1]; [1; 1; 1]; [0; 0; 1]; [1; 2; 0]]
     = raise (NameError "bin_coords")
  /\ shifted_nbins [1; 3; 2] = [3; 2; 1]
  /\ spec_multipliers [1; 3; 2] = [6; 2; 1]
  /\ linearized_dot [1; 3; 2] [[0; 1; 1]; [1; 1; 1]; [0; 0; 1]; [1; 2; 0]]
     = ret [[3]; [6]; [1]; [7]]
  /\ linearized_dot [2; 3; 2] [[0; 1; 1]; [1; 0; 0]] = ret [[3]; [3]].
Proof. repeat split; reflexivity. Qed.

(** ** The stages after the linearizer

    What grouping and extraction do with any key column: the subproblems
    partition the grouped values. *)







(** ** The distributor *)

(** C3. [distribute_subproblems] produces no subproblem: whenever the
    geometric stage goes through, the call of
    [compute_linearized_bin_coords] raises [NameError], for bounded and
    unbounded [pts_per_future] alike; so two points in a one-axis grid of
    four cells are dispatched in no subproblem at all. *)
Theorem distribute_subproblems_raises
        (uniform_grid_cell_size : list Q)
        (uniform_grid_cell_count bins_size : list Z)
        (pts : list (list Q)) (weights : list Q) (pts_per_future : Z) :
  distribute_subproblems uniform_grid_cell_size uniform_grid_cell_count
                         bins_size pts weights pts_per_future
  = (bins_per_axis <-
       compute_bins_per_axis uniform_grid_cell_count bins_size ;;
     bin_coords <-
       compute_bin_coords uniform_grid_cell_size uniform_grid_cell_count
                          bins_size pts ;;
     raise (NameError "bin_coords"))
  /\ distribute_subproblems [1%Q] [4] [1] [[(1 # 2)%Q]; [(5 # 2)%Q]]
                            [1%Q; 1%Q] (-1)
     = raise (NameError "bin_coords")
  /\ distribute_subproblems [1%Q] [4] [1] [[(1 # 2)%Q]; [(5 # 2)%Q]]
                            [1%Q; 1%Q] 1
     = raise (NameError "bin_coords").
Proof.
  split; [| split; reflexivity].
  unfold distribute_subproblems.
  destruct (compute_bins_per_axis _ _) as [e|bpa]; [reflexivity|].
  cbn [bind].
  destruct (compute_bin_coords _ _ _ _) as [e|bc]; reflexivity.
Qed.

(** ** The mapper and the entry point *)

Section MapperFacts.
Variable D : Type.
Variable zero : D.
Variable ltb : D -> D -> bool.
Variable cast : D -> D.
Variables Grid GridIdx : Type.
Variable norm_distances : Grid -> list (list Q) -> list D.




(** C6. The mapper returns no array: its first statement unpacks
    [subgroups_and_coords], a name bound nowhere (the parameter is
    [subgroup_info]), so every call raises [NameError], with the
    exact-cutoff flag set or not. *)
Theorem mapper_raises
        (subgroup_info : subproblem)
        (uniform_grid_cell_size : list Q)
        (uniform_grid_cell_count bins_size : list Z)
        (max_distance_in_cells : D)
        (function : list D -> list D)
        (exact_max_distance : bool)
        (reference_bin : list Z) :
  compute_mapped_distance_on_subgroup
    D zero ltb cast Grid GridIdx norm_distances
    subgroup_info uniform_grid_cell_size uniform_grid_cell_count bins_size
    max_distance_in_cells function exact_max_distance reference_bin
  = raise (NameError "subgroups_and_coords").
Proof. reflexivity. Qed.

(** C7. The entry point returns no output array, whatever the bound: the
    call of the distributor names [samples2], bound nowhere, and raises
    [NameError] for the sentinel -1 and for every finite bound. *)
Theorem mapped_distance_matrix_raises
        (uniform_grid_cell_size : list Q)
        (uniform_grid_cell_count bins_size : list Z)
        (non_uniform_points : list (list Q))
        (max_distance : D)
        (func : list D -> list D)
        (weights : option (list Q))
        (exact_max_distance : bool)
        (k : Z) :
  mapped_distance_matrix
    D uniform_grid_cell_size uniform_grid_cell_count bins_size
    non_uniform_points max_distance func weights exact_max_distance (-1)
  = raise (NameError "samples2")
  /\ mapped_distance_matrix
       D uniform_grid_cell_size uniform_grid_cell_count bins_size
       non_uniform_points max_distance func weights exact_max_distance k
     = raise (NameError "samples2").
Proof. split; reflexivity. Qed.
End MapperFacts.

(** ** The geometric stage of the distributor *)

Lemma mapM_ret {A B : Type} (f : A -> result B) (g : A -> B) (l : list A) :
  (forall x, In x l -> f x = ret (g x)) -> mapM f l = ret (map g l).
Proof.
  unfold mapM. induction l as [|x t IH]; intros H; simpl.
  - reflexivity.
  - rewrite (H x (or_introl eq_refl)). cbn [bind ret].
    rewrite IH; [reflexivity|]. intros y Hy. apply H. now right.
Qed.

Lemma length_zip_with {A B C : Type} (f : A -> B -> C) (xs : list A) :
  forall ys, length (zip_with f xs ys) = Nat.min (length xs) (length ys).
Proof.
  induction xs as [|x t IH]; intros [|y ys]; simpl; auto.
Qed.

Lemma nth_zip_with {A B C : Type} (f : A -> B -> C) (dx : A) (dy : B) (d : C)
      (xs : list A) :
  forall (ys : list B) (i : nat),
    (i < length xs)%nat -> (i < length ys)%nat ->
    nth i (zip_with f xs ys) d = f (nth i xs dx) (nth i ys dy).
Proof.
  induction xs as [|x t IH]; intros [|y ys] [|i] Hx Hy; simpl in *;
    try lia; auto.
  apply IH; lia.
Qed.

Lemma broadcast2_same_length {A B C : Type} (f : A -> B -> C)
      (xs : list A) (ys : list B) :
  length xs = length ys -> broadcast2 f xs ys = ret (zip_with f xs ys).
Proof.
  intros H. unfold broadcast2. now rewrite H, Nat.eqb_refl.
Qed.

Lemma broadcast2_outcome {A B C : Type} (f : A -> B -> C)
      (xs : list A) (ys : list B) :
  (exists r, broadcast2 f xs ys = ret r)
  \/ (broadcast2 f xs ys
      = raise (ValueError "operands could not be broadcast together")
      /\ length xs <> length ys /\ length xs <> 1%nat /\ length ys <> 1%nat).
Proof.
  unfold broadcast2.
  destruct (Nat.eqb_spec (length xs) (length ys)) as [E|E]; [left; eauto|].
  destruct xs as [|x [|x' xs]]; [| left; eauto |];
    (destruct ys as [|y [|y' ys]]; [| left; eauto |]);
    try (right; simpl in *; repeat split; (reflexivity || lia || congruence)).
  all: simpl in E; try congruence.
Qed.

Lemma compute_bins_per_axis_shaped (uniform_grid_cell_count bins_size : list Z) :
  length bins_size = length uniform_grid_cell_count ->
  compute_bins_per_axis uniform_grid_cell_count bins_size
  = ret (zip_with Z.div uniform_grid_cell_count bins_size).
Proof.
  intros H. apply broadcast2_same_length. now symmetry.
Qed.

Lemma compute_bin_coords_shaped
      (uniform_grid_cell_size : list Q)
      (uniform_grid_cell_count bins_size : list Z) (pts : list (list Q)) :
  length uniform_grid_cell_size = length uniform_grid_cell_count ->
  length bins_size = length uniform_grid_cell_count ->
  Forall (fun row => length row = length uniform_grid_cell_count) pts ->
  compute_bin_coords uniform_grid_cell_size uniform_grid_cell_count
                     bins_size pts
  = ret (map (bin_coords_row uniform_grid_cell_size uniform_grid_cell_count
                             bins_size) pts).
Proof.
  intros Hs Hb Hrows. unfold compute_bin_coords.
  rewrite broadcast2_same_length by congruence. cbn [bind ret].
  set (extent := zip_with _ uniform_grid_cell_size bins_size).
  assert (Hext : length extent = length uniform_grid_cell_count)
    by (unfold extent; rewrite length_zip_with; lia).
  unfold broadcast_rows.
  rewrite (mapM_ret _ (fun row =>
                         zip_with (fun p d => floor_divide_int (double_of_Q p) d)
                                  row extent)).
  2:{ intros row Hrow. apply broadcast2_same_length.
      rewrite Forall_forall in Hrows. rewrite (Hrows row Hrow). now symmetry. }
  cbn [bind ret]. unfold broadcast_rows_out.
  rewrite (mapM_ret _ (fun r => zip_with Z.min r
                                 (map (fun c => wrap64 (c - 1))
                                      uniform_grid_cell_count))).
  - rewrite map_map. reflexivity.
  - intros r Hr. apply in_map_iff in Hr. destruct Hr as (row & <- & Hrow).
    rewrite Forall_forall in Hrows. specialize (Hrows row Hrow).
    rewrite broadcast2_same_length
      by (rewrite length_zip_with, length_map; lia).
    cbn [bind ret]. rewrite !length_zip_with, length_map.
    replace (Nat.min (Nat.min (length row) (length extent))
                     (length uniform_grid_cell_count))
      with (Nat.min (length row) (length extent)) by lia.
    now rewrite Nat.eqb_refl.
Qed.







(** The raw coordinate is a double turned into a 64-bit integer.  A point
    at 10^30 on the same axis gets the integer indefinite value, not the
    last bin; with cell size 1/10 and ten cells per bin the product is the
    double 1.0, and the point at 1 falls in bin 1. *)
Lemma bin_coords_double_effects :
  compute_bin_coords [1%Q] [4] [1] [[inject_Z (10 ^ 30)]] = ret [[- 2 ^ 63]]
  /\ compute_bin_coords [(1 # 10)%Q] [40] [10] [[1%Q]] = ret [[1]].
Proof. split; vm_compute; reflexivity. Qed.

(** The upper bound of the clip is the cell count, not the bin count: with
    four unit cells in bins of two, a point at 7 gets coordinate 3, while
    the last bin is 1. *)
Lemma clip_bound_is_cell_count :
  compute_bins_per_axis [4] [2] = ret [2]
  /\ compute_bin_coords [1%Q] [4] [2] [[7%Q]] = ret [[3]].
Proof. split; vm_compute; reflexivity. Qed.

Lemma broadcast_rows_fails {A B C : Type} (f : A -> B -> C)
      (rows : list (list A)) (v : list B) :
  Exists (fun row => length row <> length v
                     /\ length row <> 1%nat /\ length v <> 1%nat) rows ->
  broadcast_rows f rows v
  = raise (ValueError "operands could not be broadcast together").
Proof.
  unfold broadcast_rows, mapM.
  induction 1 as [row t Hrow | row t _ IH]; cbn [map sequence].
  - destruct (broadcast2_outcome f row v) as [[r Hr] | [Hr _]].
    + exfalso. unfold broadcast2 in Hr.
      destruct Hrow as (Hne & Hr1 & Hv1).
      destruct (Nat.eqb_spec (length row) (length v)); [contradiction|].
      destruct row as [|x [|x' row]], v as [|y [|y' v]];
        simpl in *; try discriminate; congruence.
    + now rewrite Hr.
  - destruct (broadcast2_outcome f row v) as [[r Hr] | [Hr _]];
      rewrite Hr; cbn [bind ret raise]; [now rewrite IH | reflexivity].
Qed.

(** C8, as the code has it.  The geometric stage of the distributor checks
    nothing about the values of the geometry: when the three geometry
    vectors have one length N and every point has N coordinates, bins per
    axis and bin coordinates are computed without an exception, whatever
    the cell sizes, cell counts and bin sizes.  A point whose number of
    coordinates differs from N, neither being 1, makes the stage fail at
    once with the broadcasting [ValueError].  The weights play no part in
    what the distributor's call raises. *)
Theorem geometry_stage_unvalidated
        (uniform_grid_cell_size : list Q)
        (uniform_grid_cell_count bins_size : list Z)
        (pts : list (list Q)) :
  length uniform_grid_cell_size = length uniform_grid_cell_count ->
  length bins_size = length uniform_grid_cell_count ->
  (Forall (fun row => length row = length uniform_grid_cell_count) pts ->
   exists (bins_per_axis : list Z) (bin_coords : list (list Z)),
     compute_bins_per_axis uniform_grid_cell_count bins_size
     = ret bins_per_axis
     /\ compute_bin_coords uniform_grid_cell_size uniform_grid_cell_count
                           bins_size pts = ret bin_coords
     /\ length bin_coords = length pts)
  /\ (Exists (fun row => length row <> length uniform_grid_cell_count
                         /\ length row <> 1%nat
                         /\ length uniform_grid_cell_count <> 1%nat) pts ->
      compute_bin_coords uniform_grid_cell_size uniform_grid_cell_count
                         bins_size pts
      = raise (ValueError "operands could not be broadcast together"))
  /\ (forall (weights weights' : list Q) (pts_per_future : Z) (e : exn),
         distribute_subproblems uniform_grid_cell_size uniform_grid_cell_count
                                bins_size pts weights pts_per_future
         = raise e
         <-> distribute_subproblems uniform_grid_cell_size
                                    uniform_grid_cell_count
                                    bins_size pts weights' pts_per_future
             = raise e).
Proof.
  intros Hs Hb. split; [|split].
  3:{ intros weights weights' pts_per_future e. unfold distribute_subproblems.
      repeat match goal with
             | |- context [bind ?c _] => destruct c; cbn [bind]
             end;
        try reflexivity.
      split; discriminate. }
  - intros Hrows. eexists. eexists.
    split; [now apply compute_bins_per_axis_shaped|].
    split; [now apply compute_bin_coords_shaped|].
    apply length_map.
  - intros Hbad. unfold compute_bin_coords.
    rewrite broadcast2_same_length by congruence. cbn [bind ret].
    rewrite broadcast_rows_fails; [reflexivity|].
    rewrite length_zip_with, Hs, Hb, Nat.min_id. exact Hbad.
Qed.

Lemma geometry_stage_unvalidated_witness :
  (Forall (fun row => length row = length [-4; 0]) [[1%Q; 2%Q]] ->
   exists (bins_per_axis : list Z) (bin_coords : list (list Z)),
     compute_bins_per_axis [-4; 0] [-2; 0] = ret bins_per_axis
     /\ compute_bin_coords [(-1)%Q; 0%Q] [-4; 0] [-2; 0] [[1%Q; 2%Q]]
        = ret bin_coords
     /\ length bin_coords = length [[1%Q; 2%Q]])
  /\ (Exists (fun row => length row <> length [-4; 0]
                         /\ length row <> 1%nat
                         /\ length [-4; 0] <> 1%nat) [[1%Q; 2%Q]] ->
      compute_bin_coords [(-1)%Q; 0%Q] [-4; 0] [-2; 0] [[1%Q; 2%Q]]
      = raise (ValueError "operands could not be broadcast together"))
  /\ (forall (weights weights' : list Q) (pts_per_future : Z) (e : exn),
         distribute_subproblems [(-1)%Q; 0%Q] [-4; 0] [-2; 0] [[1%Q; 2%Q]]
                                weights pts_per_future
         = raise e
         <-> distribute_subproblems [(-1)%Q; 0%Q] [-4; 0] [-2; 0]
                                    [[1%Q; 2%Q]] weights' pts_per_future
             = raise e).
Proof.
  apply (geometry_stage_unvalidated
           [(-1)%Q; 0%Q] [-4; 0] [-2; 0] [[1%Q; 2%Q]]); reflexivity.
Defined.

(** C8 as stated fails: a geometry that is negative on every count, with
    three weights for one point, passes the geometric stage, and the
    outcome of the entry point on it is the outcome on a well-formed call,
    so that no error raised tells the two apart. *)
Lemma malformed_geometry_not_rejected :
  compute_bins_per_axis [-4] [-2] = ret [2]
  /\ compute_bin_coords [(-1)%Q] [-4] [-2] [[1%Q]] = ret [[-5]]
  /\ ~ (exists configuration_error : result (list (list Q)) -> Prop,
           configuration_error
             (mapped_distance_matrix Q [(-1)%Q] [-4] [-2] [[1%Q]] 1%Q
                                     (fun l => l)
                                     (Some [1%Q; 2%Q; 3%Q]) true 5)
           /\ ~ configuration_error
                  (mapped_distance_matrix Q [1%Q] [4] [2] [[1%Q]] 1%Q
                                          (fun l => l) None true 5)).
Proof.
  split; [reflexivity|]. split; [reflexivity|].
  intros (configuration_error & Hbad & Hgood). apply Hgood. exact Hbad.
Qed.

(** * Further properties of the pipeline *)

(** ** Bounds of [extract_subproblems] outside the documented range *)

(** X1. A bound of 0 makes every bin raise [ZeroDivisionError], and a bound
    of -2 or less makes every bin raise [ValueError] (the number of sections
    asked for is not positive), the empty bins and the non-empty ones
    alike: only -1 is a sentinel. *)
Theorem extract_subproblems_bad_bound (indexes : list (list Z)) (k : Z) :
  k <= -2 ->
  extract_subproblems indexes 0
  = map (fun _ => raise ZeroDivisionError) indexes
  /\ extract_subproblems indexes k
     = map (fun _ => raise (ValueError "number sections must be larger than 0."))
           indexes.
Proof.
  intros Hk. split; [reflexivity|].
  unfold extract_subproblems.
  destruct (Z.eqb_spec k (-1)) as [?|_]; [lia|]. cbn [negb].
  destruct (Z.eqb_spec k 0) as [?|_]; [lia|].
  apply map_ext. intros arr. unfold array_split.
  pose proof (ceil_div_negative_divisor (Z.of_nat (length arr)) k
                                        ltac:(lia) ltac:(lia)) as Hc.
  destruct (Z.leb_spec (ceil_div (Z.of_nat (length arr)) k) 0); [reflexivity|lia].
Qed.

Lemma extract_subproblems_bad_bound_witness :
  extract_subproblems [[4; 5; 6]; []] 0
  = map (fun _ => raise ZeroDivisionError) [[4; 5; 6]; []]
  /\ extract_subproblems [[4; 5; 6]; []] (-3)
     = map (fun _ => raise (ValueError "number sections must be larger than 0."))
           [[4; 5; 6]; []].
Proof.
  apply (extract_subproblems_bad_bound [[4; 5; 6]; []] (-3)). lia.
Defined.

(** ** Shape of the chunks *)







(** ** Grouping followed by extraction *)






(** ** Grouping does not depend on the order of the rows *)

Lemma sorted_permutation_unique (l1 : list Z) :
  forall l2 : list Z,
    StronglySorted Z.le l1 -> StronglySorted Z.le l2 ->
    Permutation l1 l2 -> l1 = l2.
Proof.
  induction l1 as [|x t IH]; intros l2 H1 H2 Hp.
  - now apply Permutation_nil in Hp.
  - destruct l2 as [|y t'].
    + apply Permutation_sym, Permutation_nil in Hp. discriminate.
    + inversion H1 as [|? ? Ht Hx]; subst.
      inversion H2 as [|? ? Ht' Hy]; subst.
      rewrite Forall_forall in Hx, Hy.
      assert (x = y).
      { assert (Hyin : In y (x :: t))
          by (eapply Permutation_in; [apply Permutation_sym, Hp | now left]).
        assert (Hxin : In x (y :: t'))
          by (eapply Permutation_in; [apply Hp | now left]).
        destruct Hyin as [|Hyin]; [assumption|].
        destruct Hxin as [|Hxin]; [congruence|].
        specialize (Hx _ Hyin). specialize (Hy _ Hxin). lia. }
      subst y. f_equal. apply IH; auto.
      now apply Permutation_cons_inv in Hp.
Qed.

Lemma np_unique_permutation (ks1 ks2 : list Z) :
  Permutation ks1 ks2 -> np_unique ks1 = np_unique ks2.
Proof.
  intros Hp. unfold np_unique. f_equal.
  apply sorted_permutation_unique.
  - exact (sort_by_sorted (fun k => k) ks1).
  - exact (sort_by_sorted (fun k => k) ks2).
  - eapply perm_trans; [apply sort_by_perm|].
    eapply perm_trans; [exact Hp | apply Permutation_sym, sort_by_perm].
Qed.

Lemma filter_permutation {A : Type} (p : A -> bool) (l1 l2 : list A) :
  Permutation l1 l2 -> Permutation (filter p l1) (filter p l2).
Proof.
  induction 1 as [| x l l' _ IH | x y l | l l' l'' _ IH1 _ IH2]; simpl.
  - constructor.
  - destruct (p x); [now constructor | exact IH].
  - destruct (p x), (p y); try apply Permutation_refl. apply perm_swap.
  - eapply perm_trans; eassumption.
Qed.

(** X6. Reordering the rows of a non-empty input changes nothing but the
    order inside the groups: the two results have the same number of
    groups and corresponding groups are permutations of one another. *)
Theorem group_by_row_order (a b : list (Z * Z)) :
  a <> [] ->
  Permutation a b ->
  Forall2 (@Permutation Z) (group_by a) (group_by b).
Proof.
  intros Hne Hp.
  assert (Hneb : b <> []).
  { intros ->. apply Hne. now apply Permutation_sym, Permutation_nil in Hp. }
  rewrite !group_by_values by assumption.
  rewrite <- (np_unique_permutation (map fst a) (map fst b))
    by now apply Permutation_map.
  induction (np_unique (map fst a)) as [|k keys IH]; simpl; constructor.
  - unfold values_of_key. now apply Permutation_map, filter_permutation.
  - exact IH.
Qed.

Lemma group_by_row_order_witness :
  Forall2 (@Permutation Z)
          (group_by [(2, 10); (1, 11); (2, 12)])
          (group_by [(2, 12); (2, 10); (1, 11)]).
Proof.
  apply (group_by_row_order [(2, 10); (1, 11); (2, 12)]
                            [(2, 12); (2, 10); (1, 11)]).
  - discriminate.
  - apply Permutation_sym.
    apply (Permutation_cons_app [(2, 10); (1, 11)] [] (2, 12)).
    rewrite app_nil_r. apply Permutation_refl.
Defined.

(** ** More on the geometric stage *)


(** X7. With positive cells per bin on an axis, the bins of that axis cover
    bins-per-axis x cells-per-bin cells, at most the cell count and short of
    it by less than one bin: the cells left over at the end belong to no
    bin. *)
Theorem bins_per_axis_floor (uniform_grid_cell_count bins_size : list Z) (i : nat) :
  length bins_size = length uniform_grid_cell_count ->
  (i < length uniform_grid_cell_count)%nat ->
  0 < nth i bins_size 0 ->
  exists bins_per_axis : list Z,
    compute_bins_per_axis uniform_grid_cell_count bins_size = ret bins_per_axis
    /\ length bins_per_axis = length uniform_grid_cell_count
    /\ nth i bins_per_axis 0 * nth i bins_size 0
       <= nth i uniform_grid_cell_count 0
       < (nth i bins_per_axis 0 + 1) * nth i bins_size 0.
Proof.
  intros Hb Hi Hpos.
  eexists. split; [now apply compute_bins_per_axis_shaped|].
  split; [rewrite length_zip_with; lia|].
  rewrite (nth_zip_with Z.div 0 0) by lia.
  pose proof (Z.mul_div_le (nth i uniform_grid_cell_count 0) _ Hpos).
  pose proof (Z.mul_succ_div_gt (nth i uniform_grid_cell_count 0) _ Hpos).
  lia.
Qed.

Lemma bins_per_axis_floor_witness :
  exists bins_per_axis : list Z,
    compute_bins_per_axis [10; 7] [4; 2] = ret bins_per_axis
    /\ length bins_per_axis = length [10; 7]
    /\ nth 0 bins_per_axis 0 * nth 0 [4; 2] 0
       <= nth 0 [10; 7] 0
       < (nth 0 bins_per_axis 0 + 1) * nth 0 [4; 2] 0.
Proof.
  apply (bins_per_axis_floor [10; 7] [4; 2] 0).
  - reflexivity.
  - simpl; lia.
  - simpl; lia.
Defined.



Lemma broadcast2_scalar_left {A B C : Type} (f : A -> B -> C) (x : A)
      (ys : list B) :
  broadcast2 f [x] ys = ret (zip_with f (repeat x (length ys)) ys).
Proof.
  assert (Hmap : map (f x) ys = zip_with f (repeat x (length ys)) ys)
    by (induction ys as [|y t IH]; simpl; [reflexivity | now rewrite IH]).
  unfold broadcast2.
  destruct ys as [|y [|y' t]]; try reflexivity.
  cbn [length Nat.eqb]. now rewrite Hmap.
Qed.

(** X11. A point array with a single coordinate per point is accepted
    against a geometry of any number N of axes: the one coordinate is used
    on every axis and each point gets N bin coordinates.  The point
    dimensionality is not compared with the grid dimensionality. *)
Theorem one_coordinate_points_broadcast
        (uniform_grid_cell_size : list Q)
        (uniform_grid_cell_count bins_size : list Z)
        (positions : list Q) :
  length uniform_grid_cell_size = length uniform_grid_cell_count ->
  length bins_size = length uniform_grid_cell_count ->
  compute_bin_coords uniform_grid_cell_size uniform_grid_cell_count bins_size
                     (map (fun p => [p]) positions)
  = ret (map (fun p =>
                bin_coords_row uniform_grid_cell_size uniform_grid_cell_count
                               bins_size
                               (repeat p (length uniform_grid_cell_count)))
             positions).
Proof.
  intros Hs Hb. unfold compute_bin_coords.
  rewrite broadcast2_same_length by congruence. cbn [bind ret].
  set (extent := zip_with _ uniform_grid_cell_size bins_size).
  assert (Hext : length extent = length uniform_grid_cell_count)
    by (unfold extent; rewrite length_zip_with; lia).
  unfold broadcast_rows.
  set (fdiv := fun (p : Q) (d : float64) => floor_divide_int (double_of_Q p) d).
  rewrite (mapM_ret _ (fun row => zip_with fdiv
                                           (repeat (hd 0%Q row) (length extent))
                                           extent)).
  2:{ intros row Hrow. apply in_map_iff in Hrow. destruct Hrow as (p & <- & _).
      apply broadcast2_scalar_left. }
  cbn [bind ret]. unfold broadcast_rows_out.
  rewrite (mapM_ret _ (fun r => zip_with Z.min r
                                 (map (fun c => wrap64 (c - 1))
                                      uniform_grid_cell_count))).
  - rewrite !map_map. apply f_equal, map_ext. intros p. cbn [hd].
    unfold bin_coords_row. fold extent. now rewrite Hext.
  - intros r Hr. apply in_map_iff in Hr. destruct Hr as (row & <- & _).
    assert (Hlen : length (zip_with fdiv
                                    (repeat (hd 0%Q row) (length extent)) extent)
                   = length uniform_grid_cell_count)
      by (rewrite length_zip_with, repeat_length; lia).
    rewrite broadcast2_same_length by (rewrite length_map; exact Hlen).
    cbn [bind ret]. rewrite length_zip_with, length_map, Hlen, Nat.min_id.
    now rewrite Nat.eqb_refl.
Qed.

Lemma one_coordinate_points_broadcast_witness :
  compute_bin_coords [1%Q; (1 # 2)%Q] [4; 6] [1; 2] (map (fun p => [p]) [(5 # 2)%Q])
  = ret (map (fun p => bin_coords_row [1%Q; (1 # 2)%Q] [4; 6] [1; 2]
                                      (repeat p (length [4; 6])))
             [(5 # 2)%Q]).
Proof.
  apply (one_coordinate_points_broadcast [1%Q; (1 # 2)%Q] [4; 6] [1; 2]
                                         [(5 # 2)%Q]); reflexivity.
Defined.

(** ** Packaging a subproblem *)

Lemma getitem_in_range {A : Type} (d : A) (l : list A) (i : Z) :
  0 <= i < Z.of_nat (length l) ->
  getitem l i = ret (nth (Z.to_nat i) l d).
Proof.
  intros Hi. unfold getitem.
  destruct (Z.ltb_spec i 0); [lia|].
  destruct (Z.ltb_spec i 0); [lia|].
  destruct (Z.leb_spec (Z.of_nat (length l)) i); [lia|]. cbn [orb].
  rewrite (nth_error_nth' l d) by lia. reflexivity.
Qed.

Lemma getitem_beyond {A : Type} (l : list A) (i : Z) :
  Z.of_nat (length l) <= i ->
  getitem l i = raise (IndexError "index out of bounds").
Proof.
  intros Hi. unfold getitem.
  destruct (Z.ltb_spec i 0); [lia|].
  destruct (Z.ltb_spec i 0); [lia|].
  destruct (Z.leb_spec (Z.of_nat (length l)) i); [reflexivity|lia].
Qed.

Lemma getitem_error {A : Type} (l : list A) (i : Z) (e : exn) :
  getitem l i = raise e -> e = IndexError "index out of bounds".
Proof.
  unfold getitem.
  destruct (_ || _); [intros H; now injection H|].
  destruct (nth_error _ _); [discriminate | intros H; now injection H].
Qed.

Lemma getitems_error {A : Type} (l : list A) (idx : list Z) (e : exn) :
  getitems l idx = raise e -> e = IndexError "index out of bounds".
Proof.
  unfold getitems, mapM.
  induction idx as [|i t IH]; cbn [map sequence]; [discriminate|].
  destruct (getitem l i) as [e'|x] eqn:E; cbn [bind].
  - intros H. injection H as <-. now apply getitem_error in E.
  - destruct (sequence (map (getitem l) t)) as [e'|xs]; cbn [bind].
    + intros H. injection H as <-. now apply IH.
    + discriminate.
Qed.

Lemma getitems_beyond {A : Type} (l : list A) (idx : list Z) :
  Exists (fun i => Z.of_nat (length l) <= i) idx ->
  getitems l idx = raise (IndexError "index out of bounds").
Proof.
  intros Hex.
  destruct (getitems l idx) as [e|xs] eqn:E.
  - now rewrite (getitems_error l idx e E).
  - exfalso. revert xs E. unfold getitems, mapM.
    induction Hex as [i t Hi | i t _ IH]; intros xs; cbn [map sequence].
    + now rewrite getitem_beyond.
    + destruct (getitem l i); cbn [bind]; [discriminate|].
      destruct (sequence (map (getitem l) t)) as [e|ys]; cbn [bind];
        [discriminate|].
      intros _. now apply (IH ys).
Qed.

Lemma getitems_in_range {A : Type} (d : A) (l : list A) (idx : list Z) :
  Forall (fun i => 0 <= i < Z.of_nat (length l)) idx ->
  getitems l idx = ret (map (fun i => nth (Z.to_nat i) l d) idx).
Proof.
  intros Hall. apply mapM_ret. rewrite Forall_forall in Hall.
  intros i Hi. now apply getitem_in_range, Hall.
Qed.

(** X12. For a non-empty index array whose entries are valid positions of
    the points, of the bin coordinates and of the weights,
    [bin_content_tuple] returns the subproblem made of the points and the
    weights at exactly those positions, in that order, the index array
    itself, and the bin coordinate of its first index.  Weights beyond the
    last point are not looked at. *)
Theorem bin_content_tuple_gathers
        (weights : list Q) (bin_content : list Z)
        (pts : list (list Q)) (bin_coords : list (list Z)) :
  bin_content <> [] ->
  Forall (fun i => 0 <= i < Z.of_nat (length pts)) bin_content ->
  Forall (fun i => 0 <= i < Z.of_nat (length bin_coords)) bin_content ->
  Forall (fun i => 0 <= i < Z.of_nat (length weights)) bin_content ->
  bin_content_tuple weights bin_content pts bin_coords
  = ret (mk_subproblem
           (map (fun i => nth (Z.to_nat i) pts []) bin_content)
           (nth (Z.to_nat (hd 0 bin_content)) bin_coords [])
           bin_content
           (map (fun i => nth (Z.to_nat i) weights 0%Q) bin_content)).
Proof.
  intros Hne Hp Hb Hw. unfold bin_content_tuple.
  rewrite (getitems_in_range [] pts bin_content Hp). cbn [bind ret].
  destruct bin_content as [|first rest]; [congruence|].
  rewrite (getitem_in_range 0 (first :: rest) 0) by (simpl; lia).
  cbn [bind ret Z.to_nat nth hd].
  inversion Hb as [|? ? Hfirst _]; subst.
  rewrite (getitem_in_range [] bin_coords first Hfirst). cbn [bind ret].
  rewrite (getitems_in_range 0%Q weights (first :: rest) Hw). reflexivity.
Qed.

Lemma bin_content_tuple_gathers_witness :
  bin_content_tuple [1%Q; 2%Q; 3%Q; 4%Q] [2; 0]
                    [[(1 # 2)%Q]; [(3 # 2)%Q]; [(5 # 2)%Q]] [[0]; [1]; [2]]
  = ret (mk_subproblem
           (map (fun i => nth (Z.to_nat i)
                              [[(1 # 2)%Q]; [(3 # 2)%Q]; [(5 # 2)%Q]] [])
                [2; 0])
           (nth (Z.to_nat (hd 0 [2; 0])) [[0]; [1]; [2]] [])
           [2; 0]
           (map (fun i => nth (Z.to_nat i) [1%Q; 2%Q; 3%Q; 4%Q] 0%Q) [2; 0])).
Proof.
  apply (bin_content_tuple_gathers
           [1%Q; 2%Q; 3%Q; 4%Q] [2; 0]
           [[(1 # 2)%Q]; [(3 # 2)%Q]; [(5 # 2)%Q]] [[0]; [1]; [2]]).
  - discriminate.
  - repeat constructor; simpl; lia.
  - repeat constructor; simpl; lia.
  - repeat constructor; simpl; lia.
Defined.

(** X13. When some index of the subproblem is not a position of the
    weights (the weights are shorter than the points), the future of that
    subproblem fails with [IndexError]; nothing else is raised for it. *)
Theorem bin_content_tuple_short_weights
        (weights : list Q) (bin_content : list Z)
        (pts : list (list Q)) (bin_coords : list (list Z)) :
  Exists (fun i => Z.of_nat (length weights) <= i) bin_content ->
  bin_content_tuple weights bin_content pts bin_coords
  = raise (IndexError "index out of bounds").
Proof.
  intros Hex. unfold bin_content_tuple.
  destruct (getitems pts bin_content) as [e|p] eqn:Ep; cbn [bind].
  { now rewrite (getitems_error _ _ _ Ep). }
  destruct (getitem bin_content 0) as [e|first] eqn:Ef; cbn [bind].
  { now rewrite (getitem_error _ _ _ Ef). }
  destruct (getitem bin_coords first) as [e|b] eqn:Eb; cbn [bind].
  { now rewrite (getitem_error _ _ _ Eb). }
  now rewrite (getitems_beyond weights bin_content Hex).
Qed.

Lemma bin_content_tuple_short_weights_witness :
  bin_content_tuple [1%Q] [0; 1] [[(1 # 2)%Q]; [(3 # 2)%Q]] [[0]; [1]]
  = raise (IndexError "index out of bounds").
Proof.
  apply (bin_content_tuple_short_weights
           [1%Q] [0; 1] [[(1 # 2)%Q]; [(3 # 2)%Q]] [[0]; [1]]).
  apply Exists_cons_tl, Exists_cons_hd. simpl. lia.
Defined.

(** X14. With zero rows to group, the stages after the linearizer break in
    both modes: for a bound k >= 1 the extraction raises [ValueError] in the
    orchestrating process; with -1 it hands on one empty index array, on
    which [bin_content_tuple] fails with [IndexError] whatever the points,
    bin coordinates and weights. *)
Theorem zero_points_break (k : Z) (weights : list Q)
        (pts : list (list Q)) (bin_coords : list (list Z)) :
  1 <= k ->
  sequence (extract_subproblems (group_by []) k)
  = raise (ValueError "number sections must be larger than 0.")
  /\ sequence (extract_subproblems (group_by []) (-1)) = ret [[[]]]
  /\ map (fun subgroup => bin_content_tuple weights subgroup pts bin_coords)
         (concat [[[]]])
     = [raise (IndexError "index out of bounds")].
Proof.
  intros Hk. split; [|split; reflexivity].
  change (group_by []) with [@nil Z].
  unfold extract_subproblems.
  destruct (Z.eqb_spec k (-1)) as [?|_]; [lia|]. cbn [negb map].
  destruct (Z.eqb_spec k 0) as [?|_]; [lia|].
  reflexivity.
Qed.

Lemma zero_points_break_witness :
  sequence (extract_subproblems (group_by []) 5)
  = raise (ValueError "number sections must be larger than 0.")
  /\ sequence (extract_subproblems (group_by []) (-1)) = ret [[[]]]
  /\ map (fun subgroup => bin_content_tuple [] subgroup [] [])
         (concat [[[]]])
     = [raise (IndexError "index out of bounds")].
Proof.
  apply (zero_points_break 5 [] [] []). lia.
Defined.

(** ** The cutoff block with an arbitrary array function *)

Section CutoffFacts.
Variable D : Type.
Variable zero : D.
Variable ltb : D -> D -> bool.
Variable cast : D -> D.

Lemma mask_select_filter (p : D -> bool) (ds : list D) :
  mask_select D (map p ds) ds = filter p ds.
Proof.
  induction ds as [|d t IH]; simpl.
  - reflexivity.
  - destruct (p d); now rewrite IH.
Qed.

Lemma mask_count_filter (p : D -> bool) (ds : list D) :
  length (filter (fun b => b) (map p ds)) = length (filter p ds).
Proof.
  induction ds as [|d t IH]; simpl.
  - reflexivity.
  - destruct (p d); simpl; now rewrite IH.
Qed.



(** X17. If the array function returns a number of values that is neither
    the number of selected distances nor one, the masked assignment raises
    [ValueError]. *)
Theorem apply_cutoff_shape_error (function : list D -> list D)
        (max_distance : D) (distances : list D) :
  let below := fun d => ltb d max_distance in
  length (function (filter below distances)) <> length (filter below distances) ->
  length (function (filter below distances)) <> 1%nat ->
  apply_cutoff D zero ltb cast function max_distance distances
  = raise (ValueError "cannot assign input values to the masked output").
Proof.
  intros below Hne Hone. unfold apply_cutoff, mask_assign. fold below.
  rewrite (mask_select_filter below), (mask_count_filter below).
  rewrite length_map.
  destruct (Nat.eqb_spec (length (function (filter below distances)))
                         (length (filter below distances)));
    [contradiction|].
  destruct (function (filter below distances)) as [|v [|v' vs]];
    try reflexivity.
  now contradiction Hone.
Qed.
End CutoffFacts.


Lemma apply_cutoff_shape_error_witness :
  apply_cutoff Z 0 Z.ltb (fun v => v) (fun l => l ++ l) 3 [1; 5; 2; 3]
  = raise (ValueError "cannot assign input values to the masked output").
Proof.
  apply (apply_cutoff_shape_error Z 0 Z.ltb (fun v => v) (fun l => l ++ l)
                                  3 [1; 5; 2; 3]);
    simpl; lia.
Defined.

(** ** The returned expression of the linearizer on two axes *)


